(** * Clock/reset generator and CSR peripherals of the Pipistrello I2C target

    Shallow embedding of [i2cslave/targets/pipistrello_i2c.py]:
    - the PLL ratio computation and its range assertions in [_CRG.__init__],
    - the power-on-reset counter and the reset fed to the [sys] domain,
    - the [Clock] divider and its status register,
    - the [GPIOInOut] tri-state pin.

    Synchronous logic is modelled cycle by cycle: a state holds the
    registers, a step function is one rising clock edge ([self.sync]),
    and combinational assignments ([self.comb]) are functions of the
    current state and inputs. *)

From Stdlib Require Import ZArith Znumtheory Lia Bool List String.
Import ListNotations.

Local Open Scope Z_scope.

(** ** Exceptions raised while the design is elaborated *)

Inductive exn : Type :=
| ZeroDivisionError
| AssertionError.

Inductive result (A : Type) : Type :=
| Ok (a : A)
| Raise (e : exn).

Arguments Ok {A} a.
Arguments Raise {A} e.

Definition bind {A B : Type} (m : result A) (k : A -> result B) : result B :=
  match m with
  | Ok a => k a
  | Raise e => Raise e
  end.

Notation "x <- m ;; k" := (bind m (fun x => k))
  (at level 61, m at next level, right associativity).

(** [assert b] of Python: continues on [True], raises on [False]. *)
Definition assert (b : bool) : result unit :=
  if b then Ok tt else Raise AssertionError.

(** ** [fractions.Fraction]

    A fraction is a pair of integers kept in lowest terms with a
    positive denominator; every constructor and operator goes through
    the normalisation of [Fraction.__new__]. *)

Module Fraction.

Record t : Type := mk { numerator : Z; denominator : Z }.

(** [Fraction(n, d)] on two ints: [g = gcd(n, d)], negated when
    [d < 0], then both are floor-divided by [g]. *)
Definition new (n d : Z) : result t :=
  if d =? 0 then Raise ZeroDivisionError
  else
    let g := Z.gcd n d in
    let g := if d <? 0 then - g else g in
    Ok (mk (n / g) (d / g)).

(** An int seen as a rational: numerator itself, denominator 1. *)
Definition of_int (n : Z) : t := mk n 1.

(** [Fraction(a, b)] on two rationals. *)
Definition new2 (a b : t) : result t :=
  new (numerator a * denominator b) (numerator b * denominator a).

Definition add (a b : t) : result t :=
  new (numerator a * denominator b + numerator b * denominator a)
      (denominator a * denominator b).

Definition mul (a b : t) : result t :=
  new (numerator a * numerator b) (denominator a * denominator b).

Definition div (a b : t) : result t :=
  new (numerator a * denominator b) (denominator a * numerator b).

(** [a <= b] through [_richcmp]: cross-multiplication. *)
Definition le (a b : t) : bool :=
  numerator a * denominator b <=? numerator b * denominator a.

(** [a == b]: same numerator and same denominator. *)
Definition eqb (a b : t) : bool :=
  (numerator a =? numerator b) && (denominator a =? denominator b).

(** The class invariant. *)
Definition wf (a : t) : Prop :=
  0 < denominator a /\ Z.gcd (numerator a) (denominator a) = 1.

(** Two fractions denote the same rational number. *)
Definition same_value (a b : t) : Prop :=
  numerator a * denominator b = numerator b * denominator a.

End Fraction.

(** The float literals [19e6], [500e6], [400e6] and [1080e6] are integers
    below 2^53, so [Fraction.from_float] turns them into these exact
    values before comparing. *)
Definition pfd_min : Fraction.t := Fraction.of_int 19000000.
Definition pfd_max : Fraction.t := Fraction.of_int 500000000.
Definition vco_min : Fraction.t := Fraction.of_int 400000000.
Definition vco_max : Fraction.t := Fraction.of_int 1080000000.

(** ** [_CRG]: PLL parameters *)

(** One [CLKOUTi] tap of the PLL. *)
Record clkout : Type := mk_clkout { PHASE : Z; DIVIDE : Z }.

Record PLL_ADV : Type := mk_PLL_ADV {
  DIVCLK_DIVIDE : Z;
  CLKFBOUT_MULT : Z;
  CLKFBOUT_PHASE : Z;
  CLKOUT : list clkout
}.

(** What [_CRG.__init__] wires up: the PLL instance and, for each clock
    buffer, the index of the PLL tap feeding it. *)
Record CRG : Type := mk_CRG {
  pll : PLL_ADV;
  cd_sys_clk : nat;
  cd_sdram_half_clk : nat;
  cd_sdram_full_wr_clk : nat;
  clk_sdram_half_shifted : nat
}.

Section Solver.

(** [f0] and [p] are locals of [_CRG.__init__]; they are kept abstract
    here and fixed in [CRG_init] below. *)
Variable f0 : Fraction.t.
Variable p : Z.

(** [f = Fraction(clk_freq*p, f0); n, d = f.numerator, f.denominator] *)
Definition pll_ratio (clk_freq : Fraction.t) : result (Z * Z) :=
  x <- Fraction.mul clk_freq (Fraction.of_int p) ;;
  f <- Fraction.new2 x f0 ;;
  Ok (Fraction.numerator f, Fraction.denominator f).

(** [assert 19e6 <= f0/d <= 500e6] *)
Definition assert_pfd (d : Z) : result unit :=
  pfd <- Fraction.div f0 (Fraction.of_int d) ;;
  assert (Fraction.le pfd_min pfd && Fraction.le pfd pfd_max).

(** [assert 400e6 <= f0*n/d <= 1080e6] *)
Definition assert_vco (n d : Z) : result unit :=
  f0n <- Fraction.mul f0 (Fraction.of_int n) ;;
  vco <- Fraction.div f0n (Fraction.of_int d) ;;
  assert (Fraction.le vco_min vco && Fraction.le vco vco_max).

(** Lines 79-82: the ratio, then the two assertions in order. *)
Definition solve (clk_freq : Fraction.t) : result (Z * Z) :=
  nd <- pll_ratio clk_freq ;;
  _ <- assert_pfd (snd nd) ;;
  _ <- assert_vco (fst nd) (snd nd) ;;
  Ok nd.

(** The [PLL_ADV] instance and the buffers that follow the assertions. *)
Definition elaborate (clk_freq : Fraction.t) : result CRG :=
  nd <- solve clk_freq ;;
  Ok {| pll := {| DIVCLK_DIVIDE := snd nd;
                  CLKFBOUT_MULT := fst nd;
                  CLKFBOUT_PHASE := 0;
                  CLKOUT := [ mk_clkout 0 (p / 4);
                              mk_clkout 0 (p / 4);
                              mk_clkout 270 (p / 2);
                              mk_clkout 250 (p / 2);
                              mk_clkout 0 (p / 1);
                              mk_clkout 0 (p / 1) ] |};
        cd_sys_clk := 5;
        cd_sdram_half_clk := 2;
        cd_sdram_full_wr_clk := 0;
        clk_sdram_half_shifted := 3 |}.

End Solver.

(** [f0 = Fraction(50, 1)*1000000] *)
Definition f0 : result Fraction.t :=
  f <- Fraction.new 50 1 ;;
  Fraction.mul f (Fraction.of_int 1000000).

(** [p = 12] *)
Definition p : Z := 12.

(** [_CRG.__init__(platform, clk_freq)] *)
Definition CRG_init (clk_freq : Fraction.t) : result CRG :=
  f <- f0 ;;
  elaborate f p clk_freq.

(** Default of [BaseSoC.__init__]:
    [clk_freq = (83 + Fraction(1, 3))*1000*1000] *)
Definition clk_freq_default : result Fraction.t :=
  third <- Fraction.new 1 3 ;;
  a <- Fraction.add (Fraction.of_int 83) third ;;
  b <- Fraction.mul a (Fraction.of_int 1000) ;;
  Fraction.mul b (Fraction.of_int 1000).

(** [BaseSoC.__init__] with its default frequency, as far as the clock
    generator is concerned. *)
Definition BaseSoC_crg : result CRG :=
  clk_freq <- clk_freq_default ;;
  CRG_init clk_freq.

(** ** Migen signals

    [Signal(max=m)] holds [bits_for(m - 1)] bits; an assignment keeps the
    low bits of the assigned value. *)

Definition bits_for (n : Z) : Z :=
  if 0 <? n then Z.log2_up (n + 1) else Z.log2_up (- n) + 1.

Definition truncate (nbits v : Z) : Z := v mod 2 ^ nbits.

(** ** [_CRG]: power-on reset *)

Module POR.

(** [por = Signal(max=1 << 11, reset=(1 << 11) - 1)] *)
Definition max : Z := Z.shiftl 1 11.
Definition nbits : Z := bits_for (max - 1).
Definition reset : Z := Z.shiftl 1 11 - 1.

(** [self.sync.por += If(por != 0, por.eq(por - 1))] *)
Definition step (por : Z) : Z :=
  if negb (por =? 0) then truncate nbits (por - 1) else por.


(** The reset requested for the [sys] domain, the input of
    [AsyncResetSynchronizer(self.cd_sys, ...)]:
    [~pll_lckd | (por > 0)]. *)
Definition sys_rst (pll_lckd : bool) (por : Z) : bool :=
  negb pll_lckd || (por >? 0).


End POR.

(** ** [Clock] *)

Module Clock.

(** [ratio = int(83.3e6//100e3//2)]: the float operands are whole
    numbers, so the floor divisions are those of the integers. *)
Definition ratio : Z := 83300000 / 100000 / 2.

(** [counter = Signal(max=ratio)] *)
Definition nbits : Z := bits_for (ratio - 1).

Record state : Type := mk {
  sample : bool;
  counter : Z;
  r_status : bool     (* [self._r.status] *)
}.

(** All three registers have reset value 0. *)
Definition reset : state :=
  {| sample := false; counter := 0; r_status := false |}.

(** [self.comb += pad.eq(sample)] *)
Definition pad (s : state) : bool := sample s.

(** [self.sync]: every right-hand side reads the state before the edge. *)
Definition step (s : state) : state :=
  {| r_status := sample s;
     counter := if counter s =? ratio then 0
                else truncate nbits (counter s + 1);
     sample := if counter s =? ratio then negb (sample s)
               else sample s |}.

Fixpoint run (t : nat) : state :=
  match t with
  | O => reset
  | S t' => step (run t')
  end.

Definition reachable (s : state) : Prop := exists t, run t = s.

End Clock.

(** ** [GPIOInOut] *)

(** [Tristate(pad, o, oe, i)]: the pad is driven with [o] while [oe] is
    set and left in high impedance otherwise; [i] reads the pad. *)
Module Tristate.

(** What this driver puts on the pad: [None] is high impedance. *)
Definition drive (o oe : bool) : option bool :=
  if oe then Some o else None.

(** Level of the pad, given the level [ext] the outside world gives a
    floating pad. *)
Definition level (drv : option bool) (ext : bool) : bool :=
  match drv with
  | Some v => v
  | None => ext
  end.

End Tristate.

Module GPIOInOut.

(** [self._w = CSRStorage(2)]: a host write stores the two low bits of
    the bus data. *)
Definition w_nbits : Z := 2.
Definition csr_write (dat_w : Z) : Z := Z.land dat_w (Z.ones w_nbits).

(** [self.value.eq(self._w.storage[0])] *)
Definition value (storage : Z) : bool := Z.testbit storage 0.

(** [self.oe.eq(self._w.storage[1])] *)
Definition oe (storage : Z) : bool := Z.testbit storage 1.

(** The pad as driven by [Tristate(pad, self.value, self.oe, self.r)]. *)
Definition pad_drive (storage : Z) : option bool :=
  Tristate.drive (value storage) (oe storage).

Definition pad (storage : Z) (ext : bool) : bool :=
  Tristate.level (pad_drive storage) ext.

(** [self.r]: the tristate's input side. *)
Definition r (storage : Z) (ext : bool) : bool := pad storage ext.

(** [self._r.status.eq(self.r)] *)
Definition r_status (storage : Z) (ext : bool) : bool := r storage ext.

End GPIOInOut.

(** ** Vocabulary of the requirements *)

(** The rational [num/den], with [den > 0], lies in [[lo, hi]]. *)
Definition in_range (lo hi num den : Z) : Prop :=
  lo * den <= num <= hi * den.

(** Phase-detector frequency [f0/d] within 19 MHz .. 500 MHz. *)
Definition pfd_in_range (f0 : Fraction.t) (d : Z) : Prop :=
  in_range 19000000 500000000
           (Fraction.numerator f0) (Fraction.denominator f0 * d).

(** VCO frequency [f0*n/d] within 400 MHz .. 1080 MHz. *)
Definition vco_in_range (f0 : Fraction.t) (n d : Z) : Prop :=
  in_range 400000000 1080000000
           (Fraction.numerator f0 * n) (Fraction.denominator f0 * d).

(** The Python expression [f0*n/d]. *)
Definition vco_freq (f0 : Fraction.t) (n d : Z) : result Fraction.t :=
  f0n <- Fraction.mul f0 (Fraction.of_int n) ;;
  Fraction.div f0n (Fraction.of_int d).

(** Tap [i] of the PLL of an elaborated clock generator. *)
Definition tap (c : CRG) (i : nat) : option clkout :=
  nth_error (CLKOUT (pll c)) i.

(** The tap table with the core clock on a divide-by-1 tap. *)
Definition taps_divide_by_1 (c : CRG) : Prop :=
  map PHASE (CLKOUT (pll c)) = [0; 0; 270; 250; 0; 0] /\
  cd_sys_clk c = 5%nat /\ tap c 5 = Some (mk_clkout 0 1) /\
  cd_sdram_half_clk c = 2%nat /\ tap c 2 = Some (mk_clkout 270 6).

(** The tap table with the core clock on a divide-by-[p] tap. *)
Definition taps_divide_by_p (c : CRG) : Prop :=
  map PHASE (CLKOUT (pll c)) = [0; 0; 270; 250; 0; 0] /\
  cd_sys_clk c = 5%nat /\ tap c 5 = Some (mk_clkout 0 12) /\
  cd_sdram_half_clk c = 2%nat /\ tap c 2 = Some (mk_clkout 270 6).







(** The clock generator elaborated for the default frequency. *)
Definition reference_crg : CRG :=
  mk_CRG (mk_PLL_ADV 1 20 0
            [mk_clkout 0 3; mk_clkout 0 3; mk_clkout 270 6;
             mk_clkout 250 6; mk_clkout 0 12; mk_clkout 0 12])
         5 2 0 3.

(** ** [_CRG]: the [por] domain under its own reset *)

Module PORDomain.

(** One edge of the [por] clock.  [rst] is [cd_por.rst], which
    [AsyncResetSynchronizer(self.cd_por, reset)] derives from the user
    button; a synchronous statement of a domain is overridden by the
    reset value of its target while the domain reset is asserted. *)
Definition step (rst : bool) (por : Z) : Z :=
  if rst then POR.reset else POR.step por.

(** The counter after [t] edges, [rst t'] being the domain reset seen
    by edge number [t']. *)
Fixpoint run (rst : nat -> bool) (t : nat) : Z :=
  match t with
  | O => POR.reset
  | S t' => step (rst t') (run rst t')
  end.

End PORDomain.

(** ** [Clock]: observation windows *)

(** Cycles among [t, t + len) on which the pad is high. *)
Fixpoint high_cycles (t len : nat) : nat :=
  match len with
  | O => O
  | S len' =>
      ((if Clock.pad (Clock.run t) then 1 else 0) + high_cycles (S t) len')%nat
  end.

(** [k] clock edges from an arbitrary register state. *)
Fixpoint Clock_steps (k : nat) (s : Clock.state) : Clock.state :=
  match k with
  | O => s
  | S k' => Clock.step (Clock_steps k' s)
  end.

(** ** [GPIOInOut]: the control register over time *)

Module GPIOReg.

(** A [CSRStorage] resets to 0. *)
Definition storage_reset : Z := 0.

(** One clock edge: a host write replaces the register, any other bus
    cycle leaves it alone. *)
Definition step (bus_write : option Z) (storage : Z) : Z :=
  match bus_write with
  | Some dat_w => GPIOInOut.csr_write dat_w
  | None => storage
  end.

Fixpoint run (bus : list (option Z)) (storage : Z) : Z :=
  match bus with
  | [] => storage
  | w :: bus' => run bus' (step w storage)
  end.

End GPIOReg.

(** ** CSR address maps

    A Python [dict] with string keys, in insertion order. *)

Module Dict.

Definition t : Type := list (string * Z).

(** [d.get(k)] *)
Fixpoint get (k : string) (d : t) : option Z :=
  match d with
  | [] => None
  | (k', v) :: d' => if String.eqb k k' then Some v else get k d'
  end.

(** [d[k] = v]: an existing key keeps its place, a new one goes last. *)
Fixpoint set (k : string) (v : Z) (d : t) : t :=
  match d with
  | [] => [(k, v)]
  | (k', v') :: d' =>
      if String.eqb k k' then (k', v) :: d' else (k', v') :: set k v d'
  end.

(** [d.update(e)] *)
Definition update (d e : t) : t :=
  fold_left (fun acc kv => set (fst kv) (snd kv) acc) e d.

(** Keys are unique, as in every [dict]. *)
Definition wf (d : t) : Prop := NoDup (map fst d).

(** No two names share an address. *)
Definition injective (d : t) : Prop :=
  forall k1 k2 v, get k1 d = Some v -> get k2 d = Some v -> k1 = k2.

End Dict.

Section CsrMaps.

(** [SoCSDRAM.csr_map] comes from the SoC library. *)
Variable SoCSDRAM_csr_map : Dict.t.

(** [csr_map = {"spiflash": 16}; csr_map.update(SoCSDRAM.csr_map)] *)
Definition BaseSoC_csr_map : Dict.t :=
  Dict.update [("spiflash"%string, 16)] SoCSDRAM_csr_map.

(** [csr_map = {"gpio_inout": 17, "clock": 18};
     csr_map.update(BaseSoC.csr_map)] *)
Definition I2CSoC_csr_map : Dict.t :=
  Dict.update [("gpio_inout"%string, 17); ("clock"%string, 18)]
              BaseSoC_csr_map.

End CsrMaps.

(** ** Vocabulary of the clock plan *)

(** A target of [cn/cd] Hz, [cd > 0], whose twelvefold lies in the VCO
    range and is a multiple of 25 MHz. *)
Definition target_accepted (cn cd : Z) : Prop :=
  400000000 * cd <= 12 * cn <= 1080000000 * cd /\
  (25000000 * cd | 12 * cn).

(** Tap [i] of a generator fed with 50 MHz runs at [k] times the target
    [cn/cd]: [50e6 * CLKFBOUT_MULT / DIVCLK_DIVIDE / DIVIDE = k * cn / cd],
    cross-multiplied. *)
Definition tap_runs_at (c : CRG) (i : nat) (k cn cd : Z) : Prop :=
  exists tp,
    tap c i = Some tp /\ 0 < DIVIDE tp /\
    50000000 * CLKFBOUT_MULT (pll c) * cd
    = k * cn * (DIVIDE tp * DIVCLK_DIVIDE (pll c)).

(** * Properties *)

(** ** Normal forms of [Fraction] *)

Section FractionFacts.

Import Fraction.

Lemma bind_ok {A B : Type} (m : result A) (k : A -> result B) (b : B) :
  bind m k = Ok b -> exists a, m = Ok a /\ k a = Ok b.
Proof.
  destruct m as [a|e]; simpl; intros H; [now exists a | discriminate].
Qed.

(** A constructed fraction is in lowest terms, has a positive
    denominator and the value [n/d]. *)
Lemma new_ok (n d : Z) (r : t) :
  new n d = Ok r ->
  d <> 0 /\ wf r /\ numerator r * d = n * denominator r.
Proof.
  unfold new, wf.
  destruct (Z.eqb_spec d 0) as [|Hd]; [discriminate|].
  intros H; injection H as <-; simpl.
  set (g := Z.gcd n d).
  assert (Hg : 0 < g).
  { pose proof (Z.gcd_nonneg n d) as Hn; fold g in Hn.
    assert (g <> 0); [|lia].
    unfold g; intros E; apply Z.gcd_eq_0_r in E; contradiction. }
  assert (Hco : Z.gcd (n / g) (d / g) = 1)
    by (apply Z.gcd_div_gcd; [lia | reflexivity]).
  destruct (Z.gcd_divide_l n d) as [a Ha], (Z.gcd_divide_r n d) as [b Hb].
  fold g in Ha, Hb.
  assert (Ea : n / g = a) by (rewrite Ha at 1; apply Z.div_mul; lia).
  assert (Eb : d / g = b) by (rewrite Hb at 1; apply Z.div_mul; lia).
  rewrite Ea, Eb in Hco.
  split; [assumption|].
  destruct (Z.ltb_spec d 0) as [Hneg|Hpos].
  - assert (Ea' : n / - g = - a)
      by (symmetry; apply Z.div_unique_exact; lia).
    assert (Eb' : d / - g = - b)
      by (symmetry; apply Z.div_unique_exact; lia).
    rewrite Ea', Eb', Z.gcd_opp_l, Z.gcd_opp_r.
    repeat split; [nia | assumption | nia].
  - rewrite Ea, Eb.
    repeat split; [nia | assumption | nia].
Qed.

(** Lowest terms are unique: equal values have equal representations. *)
Lemma wf_same_value_eq (a b : t) :
  wf a -> wf b -> same_value a b -> a = b.
Proof.
  destruct a as [na da], b as [nb db].
  unfold wf, same_value; simpl.
  intros [Ha Ga] [Hb Gb] E.
  assert (Dab : (da | db)).
  { apply Z.gauss with (m := na); [|now rewrite Z.gcd_comm].
    exists nb; lia. }
  assert (Dba : (db | da)).
  { apply Z.gauss with (m := nb); [|now rewrite Z.gcd_comm].
    exists na; lia. }
  assert (da = db) by (apply Z.divide_antisym_nonneg; auto; lia).
  subst db.
  f_equal; nia.
Qed.

Lemma eqb_refl (a : t) : eqb a a = true.
Proof. unfold eqb; now rewrite !Z.eqb_refl. Qed.

(** Comparing an int with a constructed fraction compares it with the
    quotient the fraction was built from. *)
Lemma le_int_new (k n d : Z) (r : t) :
  0 < d -> new n d = Ok r ->
  le (of_int k) r = (k * d <=? n).
Proof.
  intros Hd H. apply new_ok in H as (_ & [Hr _] & E).
  unfold le, of_int; simpl.
  apply Bool.eq_true_iff_eq; rewrite !Z.leb_le.
  split; intros; nia.
Qed.

Lemma le_new_int (k n d : Z) (r : t) :
  0 < d -> new n d = Ok r ->
  le r (of_int k) = (n <=? k * d).
Proof.
  intros Hd H. apply new_ok in H as (_ & [Hr _] & E).
  unfold le, of_int; simpl.
  apply Bool.eq_true_iff_eq; rewrite !Z.leb_le.
  split; intros; nia.
Qed.

End FractionFacts.

(** ** The PLL ratio *)

Section SolverFacts.

Import Fraction.

Variable f0 : Fraction.t.
Variable p : Z.

Lemma pll_ratio_ok (clk_freq : t) (n d : Z) :
  pll_ratio f0 p clk_freq = Ok (n, d) ->
  exists x,
    mul clk_freq (of_int p) = Ok x /\ new2 x f0 = Ok (mk n d).
Proof.
  unfold pll_ratio. intros H.
  apply bind_ok in H as (x & Hx & H).
  apply bind_ok in H as ([fn fd] & Hf & H).
  injection H as <- <-. now exists x.
Qed.

Lemma solve_ok (clk_freq : t) (n d : Z) :
  solve f0 p clk_freq = Ok (n, d) ->
  pll_ratio f0 p clk_freq = Ok (n, d) /\
  assert_pfd f0 d = Ok tt /\ assert_vco f0 n d = Ok tt.
Proof.
  unfold solve. intros H.
  apply bind_ok in H as ([n' d'] & Hr & H).
  apply bind_ok in H as ([] & Hp & H).
  apply bind_ok in H as ([] & Hv & H).
  injection H as -> ->. auto.
Qed.

Lemma assert_vco_ok (n d : Z) :
  assert_vco f0 n d = Ok tt -> exists v, vco_freq f0 n d = Ok v.
Proof.
  unfold assert_vco, vco_freq. intros H.
  apply bind_ok in H as (f0n & Hm & H).
  apply bind_ok in H as (v & Hv & _).
  exists v. now rewrite Hm.
Qed.

End SolverFacts.

(** The constants of [_CRG.__init__] evaluate without error. *)
Lemma f0_value : f0 = Ok (Fraction.mk 50000000 1).
Proof. reflexivity. Qed.

Lemma CRG_init_unfold (clk_freq : Fraction.t) :
  CRG_init clk_freq = elaborate (Fraction.mk 50000000 1) 12 clk_freq.
Proof. reflexivity. Qed.

(** What an accepted pair satisfies, down to the Python comparison
    [clk_freq*p == f0*n/d] on exact fractions. *)
Lemma solve_ok_exact (f0 : Fraction.t) (p : Z) (clk_freq : Fraction.t)
        (n d : Z) :
  solve f0 p clk_freq = Ok (n, d) ->
  0 < d /\ Z.gcd n d = 1 /\
  n * (Fraction.numerator f0 * Fraction.denominator clk_freq)
  = d * (Fraction.numerator clk_freq * p * Fraction.denominator f0) /\
  Fraction.numerator f0 * Fraction.denominator clk_freq <> 0 /\
  exists lhs rhs,
    Fraction.mul clk_freq (Fraction.of_int p) = Ok lhs /\
    vco_freq f0 n d = Ok rhs /\
    Fraction.eqb lhs rhs = true.
Proof.
  intros H.
  apply solve_ok in H as (Hr & _ & Hv).
  apply pll_ratio_ok in Hr as (x & Hx & Hf).
  apply assert_vco_ok in Hv as (v & Hv).
  pose proof Hv as Hv'.
  unfold vco_freq in Hv'.
  apply bind_ok in Hv' as (f0n & Hm & Hd).
  pose proof Hx as Hx'.
  apply new_ok in Hx as (Hx0 & [Hxd Hxg] & Ex).
  apply new_ok in Hf as (Hf0 & [Hfd Hfg] & Ef).
  apply new_ok in Hm as (Hm0 & [Hmd Hmg] & Em).
  apply new_ok in Hd as (Hd0 & [Hvd Hvg] & Ev).
  simpl in *.
  destruct clk_freq as [cn cd], f0 as [fn fd], x as [xn xd],
           f0n as [mn md], v as [vn vd]; simpl in *.
  assert (Hfn : fn <> 0) by nia.
  assert (Hcd : cd <> 0) by nia.
  assert (Hfd0 : fd <> 0) by nia.
  split; [assumption|]. split; [assumption|].
  split.
  { apply Z.mul_reg_r with (p := xd); [lia|].
    transitivity (n * (fn * xd) * cd); [ring|].
    rewrite Ef.
    transitivity (d * fd * (xn * (cd * 1))); [ring|].
    rewrite Ex. ring. }
  split; [nia|].
  exists (Fraction.mk xn xd), (Fraction.mk vn vd).
  split; [exact Hx'|]. split; [exact Hv|].
  assert (E : Fraction.mk xn xd = Fraction.mk vn vd).
  { apply wf_same_value_eq; unfold Fraction.wf, Fraction.same_value;
      simpl; [auto | auto |].
    assert (Em' : mn * fd = fn * n * md) by lia.
    assert (Ev' : vn * (md * d) = mn * vd) by lia.
    apply Z.mul_reg_r with (p := md * d * fd); [nia|].
    transitivity (xn * fd * d * (md * vd)); [ring|].
    rewrite <- Ef.
    transitivity (fn * n * md * (vd * xd)); [ring|].
    rewrite <- Em'.
    transitivity (mn * vd * (fd * xd)); [ring|].
    rewrite <- Ev'. ring. }
  rewrite E. apply eqb_refl.
Qed.

(** ** Range assertions *)

Section RangeFacts.

Import Fraction.

Variable f0 : Fraction.t.
Hypothesis f0_den : 0 < denominator f0.

(** The first assertion passes exactly when [f0/d] is in range. *)
Lemma assert_pfd_spec (d : Z) :
  0 < d ->
  (pfd_in_range f0 d -> assert_pfd f0 d = Ok tt) /\
  (~ pfd_in_range f0 d -> assert_pfd f0 d = Raise AssertionError).
Proof.
  intros Hd.
  unfold assert_pfd, pfd_in_range, in_range, div.
  cbn [numerator denominator of_int].
  assert (Hden : 0 < denominator f0 * d) by nia.
  destruct (new (numerator f0 * 1) (denominator f0 * d)) as [r|e] eqn:Hn.
  2: { unfold new in Hn.
       destruct (Z.eqb_spec (denominator f0 * d) 0); [lia|discriminate]. }
  cbn [bind].
  unfold pfd_min, pfd_max.
  rewrite (le_int_new _ _ _ _ Hden Hn), (le_new_int _ _ _ _ Hden Hn).
  rewrite !Z.mul_1_r.
  split; intros H.
  - destruct H as [H1 H2].
    apply Z.leb_le in H1, H2. now rewrite H1, H2.
  - destruct (Z.leb_spec (19000000 * (denominator f0 * d))
                         (numerator f0));
      destruct (Z.leb_spec (numerator f0)
                           (500000000 * (denominator f0 * d)));
      try reflexivity.
    exfalso; apply H; lia.
Qed.

(** The second assertion passes exactly when [f0*n/d] is in range. *)
Lemma assert_vco_spec (n d : Z) :
  0 < d ->
  (vco_in_range f0 n d -> assert_vco f0 n d = Ok tt) /\
  (~ vco_in_range f0 n d -> assert_vco f0 n d = Raise AssertionError).
Proof.
  intros Hd.
  unfold assert_vco, vco_in_range, in_range, mul, div.
  cbn [numerator denominator of_int].
  destruct (new (numerator f0 * n) (denominator f0 * 1)) as [m|e] eqn:Hm.
  2: { unfold new in Hm.
       destruct (Z.eqb_spec (denominator f0 * 1) 0); [lia|discriminate]. }
  cbn [bind].
  pose proof (new_ok _ _ _ Hm) as (_ & [Hmd _] & Em).
  assert (Hden : 0 < denominator m * d) by nia.
  destruct (new (numerator m * 1) (denominator m * d)) as [v|e] eqn:Hv.
  2: { unfold new in Hv.
       destruct (Z.eqb_spec (denominator m * d) 0); [lia|discriminate]. }
  cbn [bind].
  unfold vco_min, vco_max.
  rewrite (le_int_new _ _ _ _ Hden Hv), (le_new_int _ _ _ _ Hden Hv).
  assert (Lo : 400000000 * (denominator m * d) <= numerator m * 1 <->
               400000000 * (denominator f0 * d) <= numerator f0 * n)
    by (split; intros; nia).
  assert (Hi : numerator m * 1 <= 1080000000 * (denominator m * d) <->
               numerator f0 * n <= 1080000000 * (denominator f0 * d))
    by (split; intros; nia).
  split; intros H.
  - destruct H as [H1 H2].
    apply Lo, Z.leb_le in H1. apply Hi, Z.leb_le in H2.
    now rewrite H1, H2.
  - destruct (Z.leb_spec (400000000 * (denominator m * d))
                         (numerator m * 1)) as [H1|H1];
      destruct (Z.leb_spec (numerator m * 1)
                           (1080000000 * (denominator m * d))) as [H2|H2];
      try reflexivity.
    exfalso; apply H; split; [now apply Lo | now apply Hi].
Qed.

End RangeFacts.

(** C2. When the derived [n], [d] put [f0/d] outside 19..500 MHz or
    [f0*n/d] outside 400..1080 MHz, an assertion fails: the solver
    returns no pair and elaboration stops with [AssertionError], so no
    PLL instance is built. *)
Theorem solver_rejects (f0 : Fraction.t) (p : Z) (clk_freq : Fraction.t)
        (n d : Z) :
  0 < Fraction.denominator f0 ->
  pll_ratio f0 p clk_freq = Ok (n, d) ->
  ~ (pfd_in_range f0 d /\ vco_in_range f0 n d) ->
  solve f0 p clk_freq = Raise AssertionError /\
  elaborate f0 p clk_freq = Raise AssertionError.
Proof.
  intros Hf0 Hr Hout.
  assert (Hd : 0 < d).
  { apply pll_ratio_ok in Hr as (x & _ & Hf).
    apply new_ok in Hf as (_ & [Hd _] & _). exact Hd. }
  assert (Hs : solve f0 p clk_freq = Raise AssertionError).
  { unfold solve. rewrite Hr. cbn [bind fst snd].
    destruct (assert_pfd_spec f0 Hf0 d Hd) as [Pok Pno].
    destruct (assert_vco_spec f0 Hf0 n d Hd) as [Vok Vno].
    destruct (assert_pfd f0 d) as [[]|e] eqn:Hp.
    - cbn [bind].
      assert (Hpin : pfd_in_range f0 d).
      { unfold pfd_in_range, in_range.
        destruct (Z_le_dec (19000000 * (Fraction.denominator f0 * d))
                           (Fraction.numerator f0));
          destruct (Z_le_dec (Fraction.numerator f0)
                             (500000000 * (Fraction.denominator f0 * d)));
          try (split; assumption);
          (assert (Hn : ~ pfd_in_range f0 d)
            by (unfold pfd_in_range, in_range; lia));
          apply Pno in Hn; congruence. }
      rewrite Vno; [reflexivity|].
      intros Hv; apply Hout; split; assumption.
    - cbn [bind].
      destruct (Z_le_dec (19000000 * (Fraction.denominator f0 * d))
                         (Fraction.numerator f0));
        destruct (Z_le_dec (Fraction.numerator f0)
                           (500000000 * (Fraction.denominator f0 * d)));
        try (assert (Hn : ~ pfd_in_range f0 d)
              by (unfold pfd_in_range, in_range; lia);
             apply Pno in Hn; congruence).
      assert (Hin : pfd_in_range f0 d)
        by (unfold pfd_in_range, in_range; lia).
      apply Pok in Hin; congruence. }
  split; [exact Hs|].
  unfold elaborate. now rewrite Hs.
Qed.

(** A 10 MHz target asks for a 120 MHz VCO. *)
Lemma solver_rejects_witness :
  CRG_init (Fraction.mk 10000000 1) = Raise AssertionError.
Proof.
  rewrite CRG_init_unfold.
  refine (proj2 (solver_rejects (Fraction.mk 50000000 1) 12
                                (Fraction.mk 10000000 1) 12 5 _ _ _)).
  - reflexivity.
  - reflexivity.
  - unfold vco_in_range, in_range; simpl; lia.
Defined.

(** C9. The reference scenario: 50 MHz reference, default target of
    83 1/3 MHz, [p = 12].  The solver returns [n = 20], [d = 1]; both
    assertions pass and the PLL is instantiated with these values. *)
Theorem reference_scenario :
  f0 = Ok (Fraction.mk 50000000 1) /\
  clk_freq_default = Ok (Fraction.mk 250000000 3) /\
  pll_ratio (Fraction.mk 50000000 1) p (Fraction.mk 250000000 3)
  = Ok (20, 1) /\
  assert_pfd (Fraction.mk 50000000 1) 1 = Ok tt /\
  assert_vco (Fraction.mk 50000000 1) 20 1 = Ok tt /\
  pfd_in_range (Fraction.mk 50000000 1) 1 /\
  vco_in_range (Fraction.mk 50000000 1) 20 1 /\
  solve (Fraction.mk 50000000 1) p (Fraction.mk 250000000 3) = Ok (20, 1) /\
  exists c,
    BaseSoC_crg = Ok c /\
    CLKFBOUT_MULT (pll c) = 20 /\ DIVCLK_DIVIDE (pll c) = 1.
Proof.
  repeat split; try reflexivity;
    try (unfold pfd_in_range, vco_in_range, in_range; simpl; lia).
  exists reference_crg.
  split; [vm_compute; reflexivity | split; reflexivity].
Qed.

(** ** PLL taps *)

Lemma elaborate_ok (f : Fraction.t) (q : Z) (clk_freq : Fraction.t)
      (c : CRG) :
  elaborate f q clk_freq = Ok c ->
  CLKOUT (pll c) = [ mk_clkout 0 (q / 4); mk_clkout 0 (q / 4);
                     mk_clkout 270 (q / 2); mk_clkout 250 (q / 2);
                     mk_clkout 0 (q / 1); mk_clkout 0 (q / 1) ] /\
  cd_sys_clk c = 5%nat /\ cd_sdram_half_clk c = 2%nat /\
  cd_sdram_full_wr_clk c = 0%nat /\ clk_sdram_half_shifted c = 3%nat.
Proof.
  unfold elaborate. intros H.
  apply bind_ok in H as (nd & _ & H).
  injection H as <-. simpl. auto.
Qed.

(** C7, as worded: the core clock tap would divide by 1.  With the
    default frequency the elaborated tap 5 divides by 12. *)
Lemma taps_divide_by_1_fails :
  exists c, CRG_init (Fraction.mk 250000000 3) = Ok c /\
            ~ taps_divide_by_1 c.
Proof.
  exists reference_crg.
  split; [vm_compute; reflexivity|].
  intros (_ & _ & H & _). discriminate H.
Qed.

(** C7, amended.  Every elaborated clock generator has the tap phases
    0, 0, 270, 250, 0, 0; the core clock comes from tap 5, which has
    phase 0 and divides by [p // 1 = 12]; the memory half-rate clock
    comes from tap 2, which has phase 270 and divides by [p // 2 = 6]. *)
Theorem pll_taps (clk_freq : Fraction.t) (c : CRG) :
  CRG_init clk_freq = Ok c ->
  p = 12 /\ taps_divide_by_p c.
Proof.
  rewrite CRG_init_unfold. intros H.
  apply elaborate_ok in H as (Ht & Hs & Hh & _).
  unfold taps_divide_by_p, tap.
  rewrite Ht, Hs, Hh.
  repeat split; reflexivity.
Qed.

Lemma pll_taps_witness :
  CRG_init (Fraction.mk 250000000 3) = Ok reference_crg /\
  taps_divide_by_p reference_crg.
Proof.
  assert (H : CRG_init (Fraction.mk 250000000 3) = Ok reference_crg)
    by (vm_compute; reflexivity).
  split; [exact H|].
  exact (proj2 (pll_taps (Fraction.mk 250000000 3) reference_crg H)).
Defined.

(** ** Power-on reset *)

Lemma POR_constants : POR.nbits = 11 /\ POR.reset = 2047 /\ POR.max = 2048.
Proof. repeat split; reflexivity. Qed.





(** ** The bit clock *)

Lemma Clock_constants : Clock.ratio = 416 /\ Clock.nbits = 9.
Proof. split; reflexivity. Qed.

(** One clock edge, with the truncation resolved for counters that are
    at most [ratio]. *)
Lemma step_cases (s : Clock.state) :
  0 <= Clock.counter s <= Clock.ratio ->
  Clock.step s =
  if Clock.counter s =? Clock.ratio
  then Clock.mk (negb (Clock.sample s)) 0 (Clock.sample s)
  else Clock.mk (Clock.sample s) (Clock.counter s + 1) (Clock.sample s).
Proof.
  destruct Clock_constants as [Hr Hn].
  intros Hc. unfold Clock.step, truncate. rewrite Hn.
  destruct (Z.eqb_spec (Clock.counter s) Clock.ratio); [reflexivity|].
  rewrite Z.mod_small; [reflexivity|lia].
Qed.

(** After [t] edges the counter is the remainder and the output the
    parity of the quotient of [t] by 417. *)
Lemma run_decompose (t : nat) :
  exists q r,
    Z.of_nat t = 417 * q + r /\ 0 <= q /\ 0 <= r <= 416 /\
    Clock.counter (Clock.run t) = r /\
    Clock.sample (Clock.run t) = Z.odd q.
Proof.
  destruct Clock_constants as [Hr _].
  induction t as [|t (q & r & Ht & Hq & Hrng & Hc & Hs)].
  - exists 0, 0. repeat split; lia.
  - cbn [Clock.run]. rewrite step_cases by lia.
    rewrite Hc, Hr.
    destruct (Z.eqb_spec r 416) as [->|Hne];
      cbn [Clock.counter Clock.sample].
    + exists (q + 1), 0.
      repeat split; try lia.
      rewrite Hs. replace (q + 1) with (Z.succ q) by lia.
      rewrite Z.odd_succ. apply Z.negb_odd.
    + exists q, (r + 1). repeat split; try lia. exact Hs.
Qed.

Lemma run_counter (t : nat) :
  Clock.counter (Clock.run t) = Z.of_nat t mod 417.
Proof.
  destruct (run_decompose t) as (q & r & Ht & _ & Hr & Hc & _).
  rewrite Hc. apply Z.mod_unique with (q := q); lia.
Qed.

Lemma run_sample (t : nat) :
  Clock.sample (Clock.run t) = Z.odd (Z.of_nat t / 417).
Proof.
  destruct (run_decompose t) as (q & r & Ht & _ & Hr & _ & Hs).
  rewrite Hs. f_equal. apply Z.div_unique with (r := r); lia.
Qed.

Lemma run_counter_range (t : nat) :
  0 <= Clock.counter (Clock.run t) <= Clock.ratio.
Proof.
  destruct Clock_constants as [-> _].
  rewrite run_counter.
  pose proof (Z.mod_pos_bound (Z.of_nat t) 417). lia.
Qed.

(** C4. With [ratio = 416] the counter sweeps 0..416, so the pad level
    changes on exactly one edge out of 417 (the one taken with the
    counter at 416) and is inverted after any 417 cycles; the status
    register read after an edge is the pad level before that edge, so
    right after the first toggle it still shows the old level. *)
Theorem bit_clock_period (t : nat) :
  Clock.ratio = 416 /\
  Clock.counter (Clock.run t) = Z.of_nat t mod 417 /\
  Clock.pad (Clock.run t) = Z.odd (Z.of_nat t / 417) /\
  (Clock.pad (Clock.run (S t)) <> Clock.pad (Clock.run t) <->
   Z.of_nat t mod 417 = 416) /\
  Clock.pad (Clock.run (417 + t)) = negb (Clock.pad (Clock.run t)) /\
  Clock.r_status (Clock.run (S t)) = Clock.pad (Clock.run t) /\
  Clock.pad (Clock.run 417) = true /\
  Clock.r_status (Clock.run 417) = false.
Proof.
  destruct Clock_constants as [Hr _].
  split; [exact Hr|].
  split; [apply run_counter|].
  unfold Clock.pad.
  split; [apply run_sample|].
  split; [|split; [|split; [|split; vm_compute; reflexivity]]].
  - cbn [Clock.run]. rewrite step_cases by apply run_counter_range.
    rewrite <- run_counter, Hr.
    destruct (Z.eqb_spec (Clock.counter (Clock.run t)) 416) as [E|E]; cbn.
    + split; [intros _; exact E|intros _].
      destruct (Clock.sample (Clock.run t)); discriminate.
    + split; [intros H; now elim H | intros H; contradiction].
  - rewrite !run_sample.
    replace (Z.of_nat (417 + t)) with (Z.of_nat t + 1 * 417) by lia.
    rewrite Z.div_add by lia.
    replace (Z.of_nat t / 417 + 1) with (Z.succ (Z.of_nat t / 417)) by lia.
    rewrite Z.odd_succ. symmetry. apply Z.negb_odd.
  - reflexivity.
Qed.

(** C6 at the failing state: 416 edges after reset the counter equals
    [ratio], outside the declared range [0, ratio); both registers are 0
    at reset. *)
Theorem counter_reaches_ratio :
  Clock.reachable (Clock.run 416) /\
  Clock.counter (Clock.run 416) = Clock.ratio /\
  ~ (0 <= Clock.counter (Clock.run 416) < Clock.ratio) /\
  Clock.counter Clock.reset = 0 /\ Clock.sample Clock.reset = false.
Proof.
  split; [now exists 416%nat|].
  assert (E : Clock.counter (Clock.run 416) = Clock.ratio)
    by (vm_compute; reflexivity).
  split; [exact E|].
  split; [rewrite E; lia|].
  split; reflexivity.
Qed.

(** C10. In every reachable state the counter is between 0 and
    [ratio] = 416 inclusive.  An edge taken with the counter at [ratio]
    clears the counter and inverts the output; any other edge adds one
    to the counter and keeps the output; so the output changes exactly
    on the edges taken with the counter at [ratio]. *)
Theorem bit_clock_invariant (s : Clock.state) :
  Clock.reachable s ->
  Clock.ratio = 416 /\
  0 <= Clock.counter s <= Clock.ratio /\
  Clock.step s =
  (if Clock.counter s =? Clock.ratio
   then Clock.mk (negb (Clock.sample s)) 0 (Clock.sample s)
   else Clock.mk (Clock.sample s) (Clock.counter s + 1) (Clock.sample s)) /\
  (Clock.sample (Clock.step s) <> Clock.sample s <->
   Clock.counter s = Clock.ratio).
Proof.
  intros [t <-].
  pose proof (run_counter_range t) as Hc.
  split; [apply Clock_constants|].
  split; [exact Hc|].
  split; [apply step_cases; exact Hc|].
  rewrite step_cases by exact Hc.
  destruct (Z.eqb_spec (Clock.counter (Clock.run t)) Clock.ratio) as [E|E];
    cbn.
  - split; [intros _; exact E|intros _].
    destruct (Clock.sample (Clock.run t)); discriminate.
  - split; [intros H; now elim H | intros H; contradiction].
Qed.

Lemma bit_clock_invariant_witness :
  Clock.reachable (Clock.run 416) /\
  0 <= Clock.counter (Clock.run 416) <= Clock.ratio.
Proof.
  assert (R : Clock.reachable (Clock.run 416)) by (now exists 416%nat).
  split; [exact R|].
  exact (proj1 (proj2 (bit_clock_invariant (Clock.run 416) R))).
Defined.

(** ** The bidirectional pin *)

Lemma csr_write_bit (dat_w : Z) (i : Z) :
  0 <= i < GPIOInOut.w_nbits ->
  Z.testbit (GPIOInOut.csr_write dat_w) i = Z.testbit dat_w i.
Proof.
  intros Hi. unfold GPIOInOut.csr_write.
  rewrite Z.land_spec, Z.ones_spec_low by exact Hi.
  apply andb_true_r.
Qed.

(** C5. After the host writes [dat_w], [value] is bit 0 and [oe] is
    bit 1 of the written word; with [oe] set the pad is driven to
    [value], otherwise the driver is in high impedance and the pad has
    the external level; the status register is the pad level in both
    cases, with no register in between. *)
Theorem gpio_contract (dat_w : Z) (ext : bool) :
  let storage := GPIOInOut.csr_write dat_w in
  GPIOInOut.value storage = Z.testbit dat_w 0 /\
  GPIOInOut.oe storage = Z.testbit dat_w 1 /\
  GPIOInOut.pad_drive storage =
    (if GPIOInOut.oe storage then Some (GPIOInOut.value storage) else None) /\
  GPIOInOut.pad storage ext =
    (if GPIOInOut.oe storage then GPIOInOut.value storage else ext) /\
  GPIOInOut.r_status storage ext = GPIOInOut.pad storage ext.
Proof.
  cbv zeta.
  unfold GPIOInOut.value, GPIOInOut.oe.
  split; [apply csr_write_bit; unfold GPIOInOut.w_nbits; lia|].
  split; [apply csr_write_bit; unfold GPIOInOut.w_nbits; lia|].
  split; [reflexivity|].
  split; [|reflexivity].
  unfold GPIOInOut.pad, GPIOInOut.pad_drive, Tristate.drive,
    GPIOInOut.value, GPIOInOut.oe.
  now destruct (Z.testbit (GPIOInOut.csr_write dat_w) 1).
Qed.

(** C8. With [oe] clear, two register contents that meet the same
    external level read the same status, whatever their other bits. *)
Theorem gpio_input_noninterference (storage1 storage2 : Z) (ext1 ext2 : bool) :
  GPIOInOut.oe storage1 = false ->
  GPIOInOut.oe storage2 = false ->
  ext1 = ext2 ->
  GPIOInOut.r_status storage1 ext1 = GPIOInOut.r_status storage2 ext2 /\
  GPIOInOut.r_status storage1 ext1 = ext1.
Proof.
  intros H1 H2 <-.
  unfold GPIOInOut.r_status, GPIOInOut.r, GPIOInOut.pad,
    GPIOInOut.pad_drive, Tristate.drive.
  rewrite H1, H2. split; reflexivity.
Qed.

Lemma gpio_input_noninterference_witness :
  GPIOInOut.oe 0 = false /\ GPIOInOut.oe 1 = false /\
  GPIOInOut.r_status 0 true = GPIOInOut.r_status 1 true.
Proof.
  split; [reflexivity|]. split; [reflexivity|].
  exact (proj1 (gpio_input_noninterference 0 1 true true
                  eq_refl eq_refl eq_refl)).
Defined.

(** * Further properties of the clock generator *)

Section SolverMore.

Import Fraction.

Lemma new_total (n d : Z) : d <> 0 -> exists r, new n d = Ok r.
Proof.
  intros Hd. unfold new.
  destruct (Z.eqb_spec d 0); [contradiction|]. eauto.
Qed.

(** What the ratio step returns, in terms of its inputs. *)
Lemma pll_ratio_value (f : t) (q : Z) (clk_freq : t) (n d : Z) :
  pll_ratio f q clk_freq = Ok (n, d) ->
  0 < d /\ Z.gcd n d = 1 /\ denominator clk_freq <> 0 /\
  n * (numerator f * denominator clk_freq)
  = d * (numerator clk_freq * q * denominator f).
Proof.
  intros H.
  apply pll_ratio_ok in H as (x & Hx & Hf).
  apply new_ok in Hx as (Hx0 & [Hxd _] & Ex).
  apply new_ok in Hf as (Hf0 & [Hd Hg] & Ef).
  cbn [numerator denominator of_int] in *.
  repeat split; try assumption; [lia|].
  apply Z.mul_reg_r with (p := denominator x); [lia|].
  transitivity (n * (numerator f * denominator x) * denominator clk_freq);
    [ring|].
  rewrite Ef.
  transitivity (d * denominator f
                * (numerator x * (denominator clk_freq * 1))); [ring|].
  rewrite Ex. ring.
Qed.

(** The ratio step cannot fail on a target with a nonzero denominator
    and a nonzero reference. *)
Lemma pll_ratio_total (f : t) (q : Z) (clk_freq : t) :
  numerator f <> 0 -> denominator clk_freq <> 0 ->
  exists n d, pll_ratio f q clk_freq = Ok (n, d).
Proof.
  intros Hf Hc. unfold pll_ratio, mul, new2.
  destruct (new_total (numerator clk_freq * numerator (of_int q))
                      (denominator clk_freq * denominator (of_int q)))
    as [x Hx]; [cbn; lia|].
  rewrite Hx. cbn [bind].
  pose proof (new_ok _ _ _ Hx) as (_ & [Hxd _] & _).
  destruct (new_total (numerator x * denominator f)
                      (numerator f * denominator x)) as [r Hr]; [nia|].
  rewrite Hr. cbn [bind]. eauto.
Qed.

Lemma assert_cases (b : bool) :
  assert b = Ok tt \/ assert b = Raise AssertionError.
Proof. destruct b; auto. Qed.

Lemma in_range_dec (lo hi num den : Z) :
  in_range lo hi num den \/ ~ in_range lo hi num den.
Proof. unfold in_range; lia. Qed.

Lemma assert_pfd_inv (f : t) (d : Z) :
  0 < denominator f -> 0 < d ->
  assert_pfd f d = Ok tt -> pfd_in_range f d.
Proof.
  intros Hf Hd H.
  destruct (in_range_dec 19000000 500000000
              (numerator f) (denominator f * d)) as [Y|N]; [exact Y|].
  apply (proj2 (assert_pfd_spec f Hf d Hd)) in N. congruence.
Qed.

Lemma assert_vco_inv (f : t) (n d : Z) :
  0 < denominator f -> 0 < d ->
  assert_vco f n d = Ok tt -> vco_in_range f n d.
Proof.
  intros Hf Hd H.
  destruct (in_range_dec 400000000 1080000000
              (numerator f * n) (denominator f * d)) as [Y|N]; [exact Y|].
  apply (proj2 (assert_vco_spec f Hf n d Hd)) in N. congruence.
Qed.

Lemma elaborate_inv (f : t) (q : Z) (clk_freq : t) (c : CRG) :
  elaborate f q clk_freq = Ok c ->
  exists n d,
    solve f q clk_freq = Ok (n, d) /\
    c = mk_CRG (mk_PLL_ADV d n 0
                  [ mk_clkout 0 (q / 4); mk_clkout 0 (q / 4);
                    mk_clkout 270 (q / 2); mk_clkout 250 (q / 2);
                    mk_clkout 0 (q / 1); mk_clkout 0 (q / 1) ])
               5 2 0 3.
Proof.
  unfold elaborate. intros H.
  apply bind_ok in H as ([n d] & Hs & H).
  injection H as <-. now exists n, d.
Qed.

(** Inside both ranges nothing stops the elaboration. *)
Lemma elaborate_in_range (f : Fraction.t) (q : Z) (clk_freq : Fraction.t)
        (n d : Z) :
  0 < Fraction.denominator f ->
  pll_ratio f q clk_freq = Ok (n, d) ->
  pfd_in_range f d -> vco_in_range f n d ->
  solve f q clk_freq = Ok (n, d) /\
  exists c, elaborate f q clk_freq = Ok c /\
            DIVCLK_DIVIDE (pll c) = d /\ CLKFBOUT_MULT (pll c) = n.
Proof.
  intros Hf Hr Hp Hv.
  pose proof (pll_ratio_value _ _ _ _ _ Hr) as (Hd & _).
  assert (Hs : solve f q clk_freq = Ok (n, d)).
  { unfold solve. rewrite Hr. cbn [bind fst snd].
    rewrite (proj1 (assert_pfd_spec f Hf d Hd) Hp).
    cbn [bind].
    rewrite (proj1 (assert_vco_spec f Hf n d Hd) Hv).
    reflexivity. }
  split; [exact Hs|].
  unfold elaborate. rewrite Hs. cbn [bind fst snd].
  eexists. split; [reflexivity|]. split; reflexivity.
Qed.

End SolverMore.

(** C1. For every reference [f0] and target [clk_freq] given as exact
    rationals and every [p], the ratio step yields integers [n], [d]
    that are the numerator and the positive denominator of
    [clk_freq*p/f0] in lowest terms.  The solver returns exactly this
    pair, and returns it precisely when [f0/d] and [f0*n/d] lie in
    their ranges; for such a valid pair the Python comparison
    [clk_freq*p == f0*n/d] on exact fractions is true. *)
Theorem solver_exact (f0 : Fraction.t) (p : Z) (clk_freq : Fraction.t) :
  0 < Fraction.denominator f0 ->
  Fraction.numerator f0 <> 0 ->
  Fraction.denominator clk_freq <> 0 ->
  exists n d,
    pll_ratio f0 p clk_freq = Ok (n, d) /\
    0 < d /\ Z.gcd n d = 1 /\
    n * (Fraction.numerator f0 * Fraction.denominator clk_freq)
    = d * (Fraction.numerator clk_freq * p * Fraction.denominator f0) /\
    (solve f0 p clk_freq = Ok (n, d) <->
     pfd_in_range f0 d /\ vco_in_range f0 n d) /\
    (forall n' d', solve f0 p clk_freq = Ok (n', d') -> n' = n /\ d' = d) /\
    (pfd_in_range f0 d -> vco_in_range f0 n d ->
     exists lhs rhs,
       Fraction.mul clk_freq (Fraction.of_int p) = Ok lhs /\
       vco_freq f0 n d = Ok rhs /\
       Fraction.eqb lhs rhs = true).
Proof.
  intros Hfd Hfn Hcd.
  destruct (pll_ratio_total f0 p clk_freq Hfn Hcd) as (n & d & Hr).
  pose proof (pll_ratio_value _ _ _ _ _ Hr) as (Hd & Hg & _ & E).
  exists n, d.
  split; [exact Hr|]. split; [exact Hd|]. split; [exact Hg|].
  split; [exact E|].
  split; [|split].
  - split.
    + intros Hs. pose proof (solve_ok _ _ _ _ _ Hs) as (_ & Hp & Hv).
      split; [now apply assert_pfd_inv | now apply assert_vco_inv].
    + intros [Hp Hv].
      exact (proj1 (elaborate_in_range f0 p clk_freq n d Hfd Hr Hp Hv)).
  - intros n' d' Hs.
    pose proof (solve_ok _ _ _ _ _ Hs) as (Hr' & _ & _).
    rewrite Hr in Hr'. injection Hr' as -> ->. split; reflexivity.
  - intros Hp Hv.
    pose proof (proj1 (elaborate_in_range f0 p clk_freq n d Hfd Hr Hp Hv))
      as Hs.
    apply solve_ok_exact in Hs as (_ & _ & _ & _ & Hpy).
    exact Hpy.
Qed.

Lemma solver_exact_witness :
  solve (Fraction.mk 50000000 1) 12 (Fraction.mk 250000000 3) = Ok (20, 1) /\
  exists n d,
    pll_ratio (Fraction.mk 50000000 1) 12 (Fraction.mk 250000000 3)
    = Ok (n, d) /\ 0 < d /\ Z.gcd n d = 1.
Proof.
  split; [reflexivity|].
  destruct (solver_exact (Fraction.mk 50000000 1) 12
                         (Fraction.mk 250000000 3))
    as (n & d & Hr & Hd & Hg & _); [cbn; lia | cbn; lia | cbn; lia |].
  exists n, d. split; [exact Hr|]. split; [exact Hd | exact Hg].
Defined.


(** X1. Completeness of the range check: when the derived [n], [d] put
    [f0/d] and [f0*n/d] inside their ranges, both assertions pass, the
    solver returns the pair and the PLL is instantiated with
    [DIVCLK_DIVIDE = d] and [CLKFBOUT_MULT = n]. *)
Theorem solver_accepts (f : Fraction.t) (q : Z) (clk_freq : Fraction.t)
        (n d : Z) :
  0 < Fraction.denominator f ->
  pll_ratio f q clk_freq = Ok (n, d) ->
  pfd_in_range f d -> vco_in_range f n d ->
  solve f q clk_freq = Ok (n, d) /\
  exists c, elaborate f q clk_freq = Ok c /\
            DIVCLK_DIVIDE (pll c) = d /\ CLKFBOUT_MULT (pll c) = n.
Proof. apply elaborate_in_range. Qed.

Lemma solver_accepts_witness :
  pll_ratio (Fraction.mk 50000000 1) 12 (Fraction.mk 75000000 1)
  = Ok (18, 1) /\
  solve (Fraction.mk 50000000 1) 12 (Fraction.mk 75000000 1) = Ok (18, 1).
Proof.
  split; [reflexivity|].
  refine (proj1 (solver_accepts (Fraction.mk 50000000 1) 12
                                (Fraction.mk 75000000 1) 18 1 _ _ _ _)).
  - reflexivity.
  - reflexivity.
  - unfold pfd_in_range, in_range; simpl; lia.
  - unfold vco_in_range, in_range; simpl; lia.
Defined.

(** X2. On a target frequency with a positive denominator the
    constructor never fails with [ZeroDivisionError]: it either builds
    the clock generator or stops on one of its two assertions. *)
Theorem crg_init_outcomes (cn cd : Z) :
  0 < cd ->
  (exists c, CRG_init (Fraction.mk cn cd) = Ok c) \/
  CRG_init (Fraction.mk cn cd) = Raise AssertionError.
Proof.
  intros Hcd. rewrite CRG_init_unfold.
  set (f := Fraction.mk 50000000 1).
  assert (Hf : 0 < Fraction.denominator f) by (cbn; lia).
  destruct (pll_ratio_total f 12 (Fraction.mk cn cd)) as (n & d & Hr);
    [cbn; lia | cbn; lia |].
  pose proof (pll_ratio_value _ _ _ _ _ Hr) as (Hd & _).
  destruct (in_range_dec 19000000 500000000 (Fraction.numerator f)
              (Fraction.denominator f * d)) as [Yp|Np];
    [destruct (in_range_dec 400000000 1080000000 (Fraction.numerator f * n)
                 (Fraction.denominator f * d)) as [Yv|Nv]|].
  - left.
    destruct (elaborate_in_range f 12 (Fraction.mk cn cd) n d Hf Hr Yp Yv)
      as (_ & c & Hc & _). now exists c.
  - right. unfold elaborate, solve. rewrite Hr. cbn [bind fst snd].
    rewrite (proj1 (assert_pfd_spec f Hf d Hd) Yp). cbn [bind].
    rewrite (proj2 (assert_vco_spec f Hf n d Hd) Nv). reflexivity.
  - right. unfold elaborate, solve. rewrite Hr. cbn [bind fst snd].
    rewrite (proj2 (assert_pfd_spec f Hf d Hd) Np). reflexivity.
Qed.

Lemma crg_init_outcomes_witness :
  (exists c, CRG_init (Fraction.mk 0 1) = Ok c) \/
  CRG_init (Fraction.mk 0 1) = Raise AssertionError.
Proof. apply (crg_init_outcomes 0 1). lia. Defined.

(** The two range checks, read on a 50 MHz reference. *)
Lemma ranges_50MHz (cn cd n d : Z) :
  0 < cd -> 0 < d -> Z.gcd n d = 1 ->
  n * (50000000 * cd) = d * (cn * 12 * 1) ->
  (pfd_in_range (Fraction.mk 50000000 1) d /\
   vco_in_range (Fraction.mk 50000000 1) n d) <->
  target_accepted cn cd.
Proof.
  intros Hcd Hd Hg E.
  unfold pfd_in_range, vco_in_range, in_range, target_accepted.
  cbn [Fraction.numerator Fraction.denominator].
  split.
  - intros [[P1 P2] [V1 V2]].
    assert (Hd12 : d = 1 \/ d = 2) by lia.
    destruct Hd12 as [-> | ->].
    + split; [nia|]. exists (2 * n). lia.
    + split; [nia|]. exists n. lia.
  - intros [[V1 V2] [k Hk]].
    assert (E2 : 2 * n = d * k).
    { apply Z.mul_reg_r with (p := 25000000 * cd); [lia|].
      transitivity (n * (50000000 * cd)); [ring|].
      rewrite E.
      replace (cn * 12 * 1) with (12 * cn) by ring.
      rewrite Hk. ring. }
    assert (Hdiv : (d | 2)).
    { apply Z.gauss with (m := n); [|now rewrite Z.gcd_comm].
      exists k. lia. }
    apply Z.divide_pos_le in Hdiv; [|lia].
    assert (Hd12 : d = 1 \/ d = 2) by lia.
    destruct Hd12 as [-> | ->]; split; nia.
Qed.

(** X3. Which targets are accepted.  For a target of [cn/cd] Hz with
    [cd > 0], the clock generator is built exactly when twelve times the
    target lies between 400 MHz and 1080 MHz (a target between 33 1/3
    and 90 MHz) and is a whole multiple of 25 MHz. *)
Theorem crg_accepts_iff (cn cd : Z) :
  0 < cd ->
  (exists c, CRG_init (Fraction.mk cn cd) = Ok c) <->
  target_accepted cn cd.
Proof.
  intros Hcd. rewrite CRG_init_unfold.
  set (f := Fraction.mk 50000000 1).
  assert (Hf : 0 < Fraction.denominator f) by (cbn; lia).
  split.
  - intros [c Hc].
    apply elaborate_inv in Hc as (n & d & Hs & _).
    pose proof (solve_ok _ _ _ _ _ Hs) as (Hr & Hp & Hv).
    pose proof (pll_ratio_value _ _ _ _ _ Hr) as (Hd & Hg & _ & E).
    cbn [Fraction.numerator Fraction.denominator] in E.
    apply (ranges_50MHz cn cd n d Hcd Hd Hg E).
    split; [now apply assert_pfd_inv | now apply assert_vco_inv].
  - intros Ht.
    destruct (pll_ratio_total f 12 (Fraction.mk cn cd)) as (n & d & Hr);
      [cbn; lia | cbn; lia |].
    pose proof (pll_ratio_value _ _ _ _ _ Hr) as (Hd & Hg & _ & E).
    cbn [Fraction.numerator Fraction.denominator] in E.
    destruct (proj2 (ranges_50MHz cn cd n d Hcd Hd Hg E) Ht) as [Hp Hv].
    destruct (elaborate_in_range f 12 (Fraction.mk cn cd) n d Hf Hr Hp Hv)
      as (_ & c & Hc & _).
    now exists c.
Qed.

Lemma crg_accepts_iff_witness :
  (exists c, CRG_init (Fraction.mk 250000000 3) = Ok c) <->
  target_accepted 250000000 3.
Proof. apply (crg_accepts_iff 250000000 3). lia. Defined.

(** X4. The PLL parameters of every accepted target: the input divider
    is 1 or 2, the feedback multiplier lies between 8 and 43, and the
    two are coprime. *)
Theorem pll_parameter_bounds (clk_freq : Fraction.t) (c : CRG) :
  CRG_init clk_freq = Ok c ->
  (DIVCLK_DIVIDE (pll c) = 1 \/ DIVCLK_DIVIDE (pll c) = 2) /\
  8 <= CLKFBOUT_MULT (pll c) <= 43 /\
  Z.gcd (CLKFBOUT_MULT (pll c)) (DIVCLK_DIVIDE (pll c)) = 1.
Proof.
  rewrite CRG_init_unfold. intros Hc.
  apply elaborate_inv in Hc as (n & d & Hs & ->).
  cbn [pll DIVCLK_DIVIDE CLKFBOUT_MULT].
  apply solve_ok in Hs as (Hr & Hp & Hv).
  pose proof (pll_ratio_value _ _ _ _ _ Hr) as (Hd & Hg & _).
  apply assert_pfd_inv in Hp; [|cbn; lia|exact Hd].
  apply assert_vco_inv in Hv; [|cbn; lia|exact Hd].
  unfold pfd_in_range, vco_in_range, in_range in *.
  cbn [Fraction.numerator Fraction.denominator] in *.
  repeat split; lia.
Qed.

Lemma pll_parameter_bounds_witness :
  CRG_init (Fraction.mk 250000000 3) = Ok reference_crg /\
  8 <= CLKFBOUT_MULT (pll reference_crg) <= 43.
Proof.
  assert (H : CRG_init (Fraction.mk 250000000 3) = Ok reference_crg)
    by (vm_compute; reflexivity).
  split; [exact H|].
  exact (proj1 (proj2 (pll_parameter_bounds _ _ H))).
Defined.

(** X5. The domains run at whole multiples of the requested frequency:
    for an accepted target [cn/cd], the tap of the [sys] clock runs at
    exactly the target, the taps of the half-rate clock and of the
    off-chip clock at twice, and the tap of the full-rate clock at four
    times the target. *)
Theorem domain_frequencies (cn cd : Z) (c : CRG) :
  CRG_init (Fraction.mk cn cd) = Ok c ->
  tap_runs_at c (cd_sys_clk c) 1 cn cd /\
  tap_runs_at c (cd_sdram_half_clk c) 2 cn cd /\
  tap_runs_at c (clk_sdram_half_shifted c) 2 cn cd /\
  tap_runs_at c (cd_sdram_full_wr_clk c) 4 cn cd.
Proof.
  rewrite CRG_init_unfold. intros Hc.
  apply elaborate_inv in Hc as (n & d & Hs & ->).
  apply solve_ok in Hs as (Hr & _ & _).
  pose proof (pll_ratio_value _ _ _ _ _ Hr) as (Hd & _ & _ & E).
  cbn [Fraction.numerator Fraction.denominator] in E.
  unfold tap_runs_at, tap.
  cbn [pll CLKOUT cd_sys_clk cd_sdram_half_clk clk_sdram_half_shifted
       cd_sdram_full_wr_clk DIVCLK_DIVIDE CLKFBOUT_MULT].
  repeat split; eexists; (split; [reflexivity|]); cbn [DIVIDE];
    (split; [reflexivity|]).
  - change (12 / 1) with 12. lia.
  - change (12 / 2) with 6. lia.
  - change (12 / 2) with 6. lia.
  - change (12 / 4) with 3. lia.
Qed.

Lemma domain_frequencies_witness :
  CRG_init (Fraction.mk 250000000 3) = Ok reference_crg /\
  tap_runs_at reference_crg 5 1 250000000 3.
Proof.
  assert (H : CRG_init (Fraction.mk 250000000 3) = Ok reference_crg)
    by (vm_compute; reflexivity).
  split; [exact H|].
  exact (proj1 (domain_frequencies _ _ _ H)).
Defined.

(** * Further properties of the power-on reset *)

Lemma POR_step_small (v : Z) :
  0 <= v <= 2047 -> POR.step v = Z.max 0 (v - 1).
Proof.
  intros Hv. unfold POR.step, truncate.
  destruct POR_constants as (-> & _ & _).
  destruct (Z.eqb_spec v 0); cbn [negb]; [lia|].
  rewrite Z.mod_small; lia.
Qed.

Lemma PORDomain_range (rst : nat -> bool) (t : nat) :
  0 <= PORDomain.run rst t <= 2047.
Proof.
  destruct POR_constants as (_ & Hr & _).
  induction t as [|t IH]; cbn [PORDomain.run].
  - rewrite Hr; lia.
  - unfold PORDomain.step. destruct (rst t); [rewrite Hr; lia|].
    rewrite POR_step_small by exact IH. lia.
Qed.

Lemma PORDomain_lower (rst : nat -> bool) (t k : nat) :
  PORDomain.run rst t - Z.of_nat k <= PORDomain.run rst (k + t).
Proof.
  destruct POR_constants as (_ & Hr & _).
  induction k as [|k IH]; [cbn; lia|].
  cbn [Nat.add PORDomain.run]. unfold PORDomain.step.
  pose proof (PORDomain_range rst (k + t)) as Hb.
  pose proof (PORDomain_range rst t) as Hb'.
  destruct (rst (k + t)%nat); [rewrite Hr; lia|].
  rewrite POR_step_small by exact Hb. lia.
Qed.

Lemma PORDomain_upper (rst : nat -> bool) (t k : nat) :
  (forall j, (j < k)%nat -> rst (j + t)%nat = false) ->
  PORDomain.run rst (k + t) <= Z.max 0 (2047 - Z.of_nat k).
Proof.
  induction k as [|k IH]; intros Hq.
  - cbn [Nat.add]. pose proof (PORDomain_range rst t). lia.
  - cbn [Nat.add PORDomain.run]. unfold PORDomain.step.
    rewrite (Hq k) by lia.
    pose proof (PORDomain_range rst (k + t)) as Hb.
    rewrite POR_step_small by exact Hb.
    assert (IH' : PORDomain.run rst (k + t) <= Z.max 0 (2047 - Z.of_nat k))
      by (apply IH; intros j Hj; apply Hq; lia).
    lia.
Qed.

(** X6. A reset of the [por] domain holds the [sys] domain in reset:
    if [cd_por.rst] was asserted at some clock edge, the reset requested
    for [sys] is asserted on each of the following 2047 cycles,
    whatever the PLL lock does and whether or not the button is
    pressed again. *)
Theorem por_reset_holds_sys (rst : nat -> bool) (t k : nat)
        (pll_lckd : bool) :
  rst t = true -> (k < 2047)%nat ->
  0 < PORDomain.run rst (k + S t) /\
  POR.sys_rst pll_lckd (PORDomain.run rst (k + S t)) = true.
Proof.
  intros Hr Hk.
  assert (H0 : PORDomain.run rst (S t) = 2047).
  { cbn [PORDomain.run]. unfold PORDomain.step. rewrite Hr.
    apply POR_constants. }
  pose proof (PORDomain_lower rst (S t) k) as L. rewrite H0 in L.
  assert (Hpos : 0 < PORDomain.run rst (k + S t)) by lia.
  split; [exact Hpos|].
  unfold POR.sys_rst.
  destruct (Z.gtb_spec (PORDomain.run rst (k + S t)) 0); [|lia].
  apply orb_true_r.
Qed.

Lemma por_reset_holds_sys_witness :
  POR.sys_rst true (PORDomain.run (fun t => Nat.eqb t 5) (100 + 6)) = true.
Proof.
  refine (proj2 (por_reset_holds_sys (fun t => Nat.eqb t 5) 5 100 true _ _)).
  - reflexivity.
  - apply Nat.ltb_lt; vm_compute; reflexivity.
Defined.

(** X7. The power-on timer expires: after 2047 consecutive edges without
    a reset of the [por] domain the counter is 0, whatever it was
    before, and the reset requested for [sys] is then the inverted PLL
    lock. *)
Theorem por_timer_expires (rst : nat -> bool) (t : nat) (pll_lckd : bool) :
  (forall j, (j < 2047)%nat -> rst (j + t)%nat = false) ->
  PORDomain.run rst (2047 + t) = 0 /\
  POR.sys_rst pll_lckd (PORDomain.run rst (2047 + t)) = negb pll_lckd.
Proof.
  intros Hq.
  pose proof (PORDomain_upper rst t 2047 Hq) as U.
  pose proof (PORDomain_range rst (2047 + t)) as R.
  assert (E : PORDomain.run rst (2047 + t) = 0).
  { replace (Z.max 0 (2047 - Z.of_nat 2047)) with 0 in U; [lia|].
    vm_compute; reflexivity. }
  split; [exact E|].
  rewrite E. unfold POR.sys_rst. apply orb_false_r.
Qed.

Lemma por_timer_expires_witness :
  PORDomain.run (fun _ => false) (2047 + 0) = 0.
Proof.
  refine (proj1 (por_timer_expires (fun _ => false) 0 true _)).
  intros j _. reflexivity.
Defined.

(** * Further properties of the bit clock *)


Lemma run_status (t : nat) :
  Clock.r_status (Clock.run (S t)) = Clock.sample (Clock.run t).
Proof. reflexivity. Qed.

Lemma sample_full_period (t : nat) :
  Clock.sample (Clock.run (834 + t)) = Clock.sample (Clock.run t).
Proof.
  rewrite !run_sample.
  replace (Z.of_nat (834 + t)) with (Z.of_nat t + 2 * 417) by lia.
  rewrite Z.div_add by lia.
  replace (Z.of_nat t / 417 + 2) with (Z.succ (Z.succ (Z.of_nat t / 417)))
    by lia.
  now rewrite Z.odd_succ, Z.even_succ.
Qed.


Lemma high_cycles_snoc (len t : nat) :
  high_cycles t (S len) =
  (high_cycles t len
   + (if Clock.pad (Clock.run (len + t)) then 1 else 0))%nat.
Proof.
  revert t. induction len as [|len IH]; intros t.
  - cbn [high_cycles Nat.add]. lia.
  - change (high_cycles t (S (S len)))
      with ((if Clock.pad (Clock.run t) then 1 else 0)
            + high_cycles (S t) (S len))%nat.
    rewrite IH.
    change (high_cycles t (S len))
      with ((if Clock.pad (Clock.run t) then 1 else 0)
            + high_cycles (S t) len)%nat.
    replace (len + S t)%nat with (S len + t)%nat by lia.
    lia.
Qed.

(** Sliding a window by one cycle keeps its count when the cycle
    leaving and the cycle entering carry the same level. *)
Lemma high_cycles_slide (len t : nat) :
  Clock.sample (Clock.run (len + t)) = Clock.sample (Clock.run t) ->
  high_cycles (S t) len = high_cycles t len.
Proof.
  intros E.
  pose proof (high_cycles_snoc len t) as Hs.
  cbn [high_cycles] in Hs. unfold Clock.pad in Hs.
  rewrite E in Hs.
  destruct (Clock.sample (Clock.run t)); lia.
Qed.

(** X9. The duty cycle is one half: in any window of 834 consecutive
    cycles the pad is high on exactly 417 of them. *)
Theorem bit_clock_duty (t : nat) :
  high_cycles t 834 = 417%nat.
Proof.
  induction t as [|t IH].
  - vm_compute; reflexivity.
  - rewrite high_cycles_slide; [exact IH | apply sample_full_period].
Qed.

(** X10. When the host sees a stale level: the status register differs
    from the pad exactly on the cycles that follow a toggle, those
    whose number is a positive multiple of 417. *)
Theorem status_lag_cycles (t : nat) :
  Clock.r_status (Clock.run t) <> Clock.pad (Clock.run t) <->
  (0 < t)%nat /\ Z.of_nat t mod 417 = 0.
Proof.
  destruct t as [|t].
  - cbn. split; [intros H; now elim H | intros [H _]; lia].
  - rewrite run_status. unfold Clock.pad.
    rewrite !run_sample.
    pose proof (Z.div_mod (Z.of_nat t) 417 ltac:(lia)) as Dt.
    pose proof (Z.mod_pos_bound (Z.of_nat t) 417 ltac:(lia)) as Bt.
    set (q := Z.of_nat t / 417) in *.
    set (r := Z.of_nat t mod 417) in *.
    replace (Z.of_nat (S t)) with (417 * q + (r + 1)) by lia.
    destruct (Z.eq_dec r 416) as [E|E].
    + replace (417 * q + (r + 1)) with (0 + (q + 1) * 417) by lia.
      rewrite Z.div_add, Z.mod_add by lia.
      change (0 / 417) with 0. change (0 mod 417) with 0.
      replace (0 + (q + 1)) with (Z.succ q) by lia.
      rewrite Z.odd_succ, <- Z.negb_odd.
      split; [intros _; split; [lia|reflexivity]|intros _].
      destruct (Z.odd q); discriminate.
    + assert (Hq : (417 * q + (r + 1)) / 417 = q)
        by (symmetry; apply Z.div_unique with (r := r + 1); lia).
      assert (Hm : (417 * q + (r + 1)) mod 417 = r + 1)
        by (symmetry; apply Z.mod_unique with (q := q); lia).
      rewrite Hq, Hm.
      split; [intros H; now elim H | intros [_ H]; lia].
Qed.

Lemma Clock_steps_out_of_range (k : nat) (s : Clock.state) :
  416 < Clock.counter s -> Clock.counter s + Z.of_nat k < 512 ->
  Clock.sample (Clock_steps k s) = Clock.sample s /\
  Clock.counter (Clock_steps k s) = Clock.counter s + Z.of_nat k.
Proof.
  destruct Clock_constants as [Hr Hn].
  intros Hlo. induction k as [|k IH]; intros Hhi.
  - cbn [Clock_steps]. split; [reflexivity|lia].
  - destruct IH as [Is Ic]; [lia|].
    cbn [Clock_steps]. unfold Clock.step; cbn [Clock.sample Clock.counter].
    rewrite Ic, Hr, Hn.
    destruct (Z.eqb_spec (Clock.counter s + Z.of_nat k) 416); [lia|].
    split; [exact Is|].
    unfold truncate. rewrite Z.mod_small; lia.
Qed.

(** X11. A counter value above [ratio], which the 9-bit register can
    hold but no run from reset produces, is not compared equal to
    [ratio] again: the counter keeps counting up without toggling the
    pad until it wraps from 511 to 0, and normal operation resumes
    from there. *)
Theorem counter_overrun_recovers (s : Clock.state) :
  416 < Clock.counter s < 512 ->
  let k := Z.to_nat (512 - Clock.counter s) in
  (forall j, (j <= k)%nat ->
             Clock.pad (Clock_steps j s) = Clock.pad s) /\
  Clock.counter (Clock_steps k s) = 0.
Proof.
  destruct Clock_constants as [Hr Hn].
  intros [Hlo Hhi] k.
  assert (Hk : (0 < k)%nat) by (unfold k; lia).
  destruct k as [|k'] eqn:Ek; [lia|].
  assert (Hk' : Clock.counter s + Z.of_nat k' = 511) by lia.
  destruct (Clock_steps_out_of_range k' s Hlo ltac:(lia)) as [Ls Lc].
  assert (Last : Clock.step (Clock_steps k' s)
                 = Clock.mk (Clock.sample s) 0
                            (Clock.sample s)).
  { unfold Clock.step. rewrite Ls, Lc, Hk', Hr, Hn. reflexivity. }
  split.
  - intros j Hj. unfold Clock.pad.
    destruct (Nat.eq_dec j (S k')) as [->|Hne].
    + cbn [Clock_steps]. now rewrite Last.
    + apply (Clock_steps_out_of_range j s Hlo). lia.
  - cbn [Clock_steps]. now rewrite Last.
Qed.

Lemma counter_overrun_recovers_witness :
  Clock.counter (Clock_steps 12 (Clock.mk true 500 true)) = 0.
Proof.
  refine (proj2 (counter_overrun_recovers (Clock.mk true 500 true) _)).
  cbn; lia.
Defined.

(** * Further properties of the bidirectional pin *)

Lemma csr_write_mod (dat_w : Z) : GPIOInOut.csr_write dat_w = dat_w mod 4.
Proof.
  unfold GPIOInOut.csr_write, GPIOInOut.w_nbits.
  rewrite Z.land_ones by lia. reflexivity.
Qed.

(** X12. The control word, decoded: whatever else the bus carries, a
    write whose two low bits are 2 drives the pad low, 3 drives it
    high, and 0 or 1 releases it. *)
Theorem gpio_control_table (dat_w : Z) :
  GPIOInOut.pad_drive (GPIOInOut.csr_write dat_w) =
  match dat_w mod 4 with
  | 2 => Some false
  | 3 => Some true
  | _ => None
  end.
Proof.
  rewrite csr_write_mod.
  pose proof (Z.mod_pos_bound dat_w 4 ltac:(lia)) as B.
  assert (C : dat_w mod 4 = 0 \/ dat_w mod 4 = 1 \/
              dat_w mod 4 = 2 \/ dat_w mod 4 = 3) by lia.
  destruct C as [-> | [-> | [-> | ->]]]; reflexivity.
Qed.

Lemma GPIOReg_run_app (a b : list (option Z)) (storage : Z) :
  GPIOReg.run (a ++ b) storage = GPIOReg.run b (GPIOReg.run a storage).
Proof.
  revert storage. induction a as [|w a IH]; intros storage; cbn.
  - reflexivity.
  - apply IH.
Qed.

Lemma GPIOReg_run_idle (k : nat) (storage : Z) :
  GPIOReg.run (repeat None k) storage = storage.
Proof. induction k as [|k IH]; cbn; [reflexivity | exact IH]. Qed.

(** X13. The register holds the last write: after any bus history that
    ends with a write of [dat_w] followed by idle cycles, the pad is
    driven as [dat_w] says; and with no write since reset the pad is
    released and the status reads the external level. *)
Theorem gpio_register_history (before : list (option Z)) (dat_w : Z)
        (k : nat) (storage : Z) (ext : bool) :
  GPIOReg.run (before ++ Some dat_w :: repeat None k) storage
  = GPIOInOut.csr_write dat_w /\
  GPIOInOut.pad_drive (GPIOReg.run (repeat None k) GPIOReg.storage_reset)
  = None /\
  GPIOInOut.r_status (GPIOReg.run (repeat None k) GPIOReg.storage_reset) ext
  = ext.
Proof.
  split.
  - rewrite GPIOReg_run_app. cbn [GPIOReg.run GPIOReg.step].
    apply GPIOReg_run_idle.
  - rewrite GPIOReg_run_idle. split; reflexivity.
Qed.

(** * CSR address maps *)

Section DictFacts.

Import Dict.

Lemma get_set (k k' : string) (v : Z) (d : t) :
  get k (set k' v d) = if String.eqb k k' then Some v else get k d.
Proof.
  induction d as [|[k0 v0] d IH]; cbn.
  - reflexivity.
  - destruct (String.eqb_spec k' k0) as [->|Hne]; cbn.
    + destruct (String.eqb_spec k k0); reflexivity.
    + rewrite IH.
      destruct (String.eqb_spec k k0) as [->|Hne'];
        destruct (String.eqb_spec k0 k'); try reflexivity.
      congruence.
Qed.

Lemma get_absent (k : string) (d : t) :
  ~ In k (map fst d) -> get k d = None.
Proof.
  induction d as [|[k0 v0] d IH]; cbn; intros H.
  - reflexivity.
  - destruct (String.eqb_spec k k0) as [->|Hne].
    + elim H; now left.
    + apply IH. intros Hin. apply H. now right.
Qed.

(** Lookup after [update]: the updating dict wins. *)
Lemma get_update (k : string) (e d : t) :
  wf e ->
  get k (update d e) =
  match get k e with
  | Some v => Some v
  | None => get k d
  end.
Proof.
  unfold update, wf. revert d.
  induction e as [|[k0 v0] e IH]; intros d Hnd; cbn.
  - reflexivity.
  - inversion Hnd as [|? ? Hnotin Hnd']; subst.
    rewrite IH by exact Hnd'. cbn [fst snd].
    rewrite get_set.
    destruct (String.eqb_spec k k0) as [->|Hne].
    + now rewrite (get_absent k0 e Hnotin).
    + reflexivity.
Qed.

Lemma update_wf (e d : t) : wf d -> wf (update d e).
Proof.
  assert (Hset : forall k v d0, map fst (set k v d0) = map fst d0
                                \/ (~ In k (map fst d0) /\
                                    map fst (set k v d0)
                                    = map fst d0 ++ [k])).
  { intros k v d0. induction d0 as [|[k0 v0] d0 IH]; cbn.
    - right. split; [tauto|reflexivity].
    - destruct (String.eqb_spec k k0) as [->|Hne]; cbn.
      + now left.
      + destruct IH as [-> | [Hn ->]]; [now left|].
        right. split; [|reflexivity]. intros [E|Hin]; congruence. }
  assert (Hwf : forall k v d0, wf d0 -> wf (set k v d0)).
  { unfold wf. intros k v d0 H.
    destruct (Hset k v d0) as [-> | [Hn ->]]; [exact H|].
    apply NoDup_app; [exact H | repeat constructor; intros [] |].
    intros x Hx [<-|[]]. contradiction. }
  unfold update. revert d.
  induction e as [|[k0 v0] e IH]; intros d Hd; cbn; [exact Hd|].
  apply IH, Hwf, Hd.
Qed.

End DictFacts.

Section CsrMapFacts.

Variable lib_map : Dict.t.
Hypothesis lib_wf : Dict.wf lib_map.

(** Lookup in the final map: the library first, then this file. *)
Lemma I2CSoC_get (k : string) :
  Dict.get k (I2CSoC_csr_map lib_map) =
  match Dict.get k lib_map with
  | Some v => Some v
  | None =>
      if String.eqb k "spiflash" then Some 16
      else if String.eqb k "gpio_inout" then Some 17
      else if String.eqb k "clock" then Some 18
      else None
  end.
Proof.
  unfold I2CSoC_csr_map, BaseSoC_csr_map.
  rewrite get_update by (apply update_wf; repeat constructor; cbn; tauto).
  rewrite get_update by exact lib_wf.
  destruct (Dict.get k lib_map); [reflexivity|].
  cbn [Dict.get].
  destruct (String.eqb_spec k "spiflash") as [->|H1]; [reflexivity|].
  reflexivity.
Qed.

End CsrMapFacts.

(** X14. The library's addresses take precedence: every name the SoC
    library maps keeps the library's address in the final map, also
    when this file assigns the same name. *)
Theorem csr_map_library_wins (lib_map : Dict.t) (k : string) (v : Z) :
  Dict.wf lib_map ->
  Dict.get k lib_map = Some v ->
  Dict.get k (I2CSoC_csr_map lib_map) = Some v /\
  Dict.get k (BaseSoC_csr_map lib_map) = Some v.
Proof.
  intros Hwf Hk. split.
  - rewrite I2CSoC_get by exact Hwf. now rewrite Hk.
  - unfold BaseSoC_csr_map. rewrite get_update by exact Hwf.
    now rewrite Hk.
Qed.

Lemma csr_map_library_wins_witness :
  Dict.get "clock" (I2CSoC_csr_map [("uart"%string, 2); ("clock"%string, 7)])
  = Some 7.
Proof.
  refine (proj1 (csr_map_library_wins
                   [("uart"%string, 2); ("clock"%string, 7)]
                   "clock" 7 _ _)).
  - unfold Dict.wf; cbn. repeat constructor; cbn; intuition discriminate.
  - reflexivity.
Defined.

(** X15. The peripherals of this file get their addresses: when the
    library uses none of the three names, [spiflash] is at 16,
    [gpio_inout] at 17 and [clock] at 18. *)
Theorem csr_map_own_addresses (lib_map : Dict.t) :
  Dict.wf lib_map ->
  Dict.get "spiflash" lib_map = None ->
  Dict.get "gpio_inout" lib_map = None ->
  Dict.get "clock" lib_map = None ->
  Dict.get "spiflash" (I2CSoC_csr_map lib_map) = Some 16 /\
  Dict.get "gpio_inout" (I2CSoC_csr_map lib_map) = Some 17 /\
  Dict.get "clock" (I2CSoC_csr_map lib_map) = Some 18.
Proof.
  intros Hwf H1 H2 H3.
  rewrite !I2CSoC_get by exact Hwf.
  rewrite H1, H2, H3. repeat split; reflexivity.
Qed.

Lemma csr_map_own_addresses_witness :
  Dict.get "clock" (I2CSoC_csr_map [("uart"%string, 2)]) = Some 18.
Proof.
  refine (proj2 (proj2 (csr_map_own_addresses [("uart"%string, 2)] _ _ _ _))).
  - unfold Dict.wf; cbn. repeat constructor; cbn; intuition discriminate.
  - reflexivity.
  - reflexivity.
  - reflexivity.
Defined.

(** X16. No address collision: if the library's map gives distinct
    names distinct addresses and uses none of the addresses 16, 17, 18,
    then no two names of the final map share an address. *)
Theorem csr_map_no_collision (lib_map : Dict.t) :
  Dict.wf lib_map ->
  Dict.injective lib_map ->
  (forall k v, Dict.get k lib_map = Some v -> v <> 16 /\ v <> 17 /\ v <> 18) ->
  Dict.injective (I2CSoC_csr_map lib_map).
Proof.
  intros Hwf Hinj Hfree k1 k2 v.
  rewrite !I2CSoC_get by exact Hwf.
  destruct (Dict.get k1 lib_map) as [v1|] eqn:E1;
    destruct (Dict.get k2 lib_map) as [v2|] eqn:E2.
  - intros A B. injection A as ->. injection B as ->.
    exact (Hinj k1 k2 v E1 E2).
  - intros A. injection A as ->.
    destruct (Hfree k1 v E1) as (N16 & N17 & N18).
    destruct (String.eqb k2 "spiflash"); [intros B; congruence|].
    destruct (String.eqb k2 "gpio_inout"); [intros B; congruence|].
    destruct (String.eqb k2 "clock"); [intros B; congruence|].
    discriminate.
  - intros A B. injection B as ->.
    destruct (Hfree k2 v E2) as (N16 & N17 & N18).
    destruct (String.eqb k1 "spiflash"); [congruence|].
    destruct (String.eqb k1 "gpio_inout"); [congruence|].
    destruct (String.eqb k1 "clock"); [congruence|].
    discriminate.
  - destruct (String.eqb_spec k1 "spiflash") as [->|];
      [|destruct (String.eqb_spec k1 "gpio_inout") as [->|];
        [|destruct (String.eqb_spec k1 "clock") as [->|]; [|discriminate]]];
      (destruct (String.eqb_spec k2 "spiflash") as [->|];
       [|destruct (String.eqb_spec k2 "gpio_inout") as [->|];
         [|destruct (String.eqb_spec k2 "clock") as [->|];
           [|intros _ B; discriminate B]]]);
      intros A B; try reflexivity; congruence.
Qed.

Lemma csr_map_no_collision_witness :
  Dict.injective (I2CSoC_csr_map [("uart"%string, 2)]).
Proof.
  apply csr_map_no_collision.
  - unfold Dict.wf; cbn. repeat constructor; cbn; intuition discriminate.
  - intros k1 k2 v. cbn.
    destruct (String.eqb_spec k1 "uart") as [->|]; [|discriminate].
    destruct (String.eqb_spec k2 "uart") as [->|]; [|discriminate].
    reflexivity.
  - intros k v. cbn.
    destruct (String.eqb k "uart"); [|discriminate].
    intros H; injection H as <-. lia.
Defined.
